(** * CSS selector builder of [05-objects-tasks.js]

    A shallow embedding of the class [CSSSelectorBuilder] and of the facade
    object [cssSelectorBuilder], followed by the properties of the builder:
    what [stringify] renders, what [combine] produces, and which calls the
    duplicate and ordering guards reject.

    Selector parts are JavaScript strings, embedded as [string]; the arrays
    of classes, attributes and pseudo-classes are embedded as [list string];
    the [order] field is a JavaScript number that only ever holds [-1],
    [0..5] or [1000], embedded as [Z].  A call that throws is embedded in
    the exception monad [result]. *)

From Stdlib Require Import String List ZArith Lia.
Import ListNotations.
Open Scope Z_scope.
Open Scope string_scope.

(** ** The JavaScript primitives the class relies on *)

Module Js.

(** [ToBoolean] on a string: only the empty string is falsy. *)
Definition truthy (s : string) : bool :=
  match s with
  | EmptyString => false
  | String _ _ => true
  end.

(** [Array.prototype.join] on an array of strings. *)
Fixpoint join (sep : string) (a : list string) : string :=
  match a with
  | [] => ""
  | [x] => x
  | x :: rest => x ++ sep ++ join sep rest
  end.

(** [Array.prototype.toString]: what a template literal substitutes for
    an array, namely [join] with the default separator. *)
Definition toString (a : list string) : string := join "," a.

(** An [Error] object; only its message is observable here. *)
Record Error : Type := new_Error { message : string }.

End Js.

(** ** Completions: a value returned or an error thrown *)

Inductive result (A : Type) : Type :=
| Ok (a : A)
| Throw (e : Js.Error).
Arguments Ok {A} a.
Arguments Throw {A} e.

Definition bind {A B : Type} (m : result A) (k : A -> result B) : result B :=
  match m with
  | Ok a => k a
  | Throw e => Throw e
  end.

Notation "m >>= k" := (bind m k) (at level 50, left associativity).
Notation "x <- m ;; k" := (bind m (fun x => k))
  (at level 61, m at next level, right associativity).

(** [if (c) thrower();] as a statement. *)
Definition when (c : bool) (thrower : result unit) : result unit :=
  if c then thrower else Ok tt.

(** ** The two throwing helpers and the order table *)

Definition throwErrorMoreThanOne {A : Type} : result A :=
  Throw (Js.new_Error
    "Element, id and pseudo-element should not occur more then one time inside the selector").

Definition throwErrorOrder {A : Type} : result A :=
  Throw (Js.new_Error
    "Selector parts should be arranged in the following order: element, id, class, attribute, pseudo-class, pseudo-element").

(** The keys of the object [cssSelectorOrder]. *)
Inductive Category : Type :=
| Element | Id | Classes | Attrs | PseudoClass | PseudoElement.

Definition cssSelectorOrder (key : Category) : Z :=
  match key with
  | Element => 0
  | Id => 1
  | Classes => 2
  | Attrs => 3
  | PseudoClass => 4
  | PseudoElement => 5
  end.

(** ** The class *)

Record CSSSelectorBuilder : Type := new_CSSSelectorBuilder {
  order : Z;
  prefix : string;
  elementValue : string;
  idValue : string;
  classes : list string;
  attrs : list string;
  pseudoClasses : list string;
  psuedoElementValue : string
}.

Definition stringify (this : CSSSelectorBuilder) : string :=
  prefix this ++ elementValue this
  ++ (if Js.truthy (idValue this) then "#" else "") ++ idValue this
  ++ Js.join "" (map (fun cssClass => "." ++ cssClass) (classes this))
  ++ Js.toString (map (fun attr => "[" ++ attr ++ "]") (attrs this))
  ++ Js.join "" (map (fun pseudoClass => ":" ++ pseudoClass) (pseudoClasses this))
  ++ (if Js.truthy (psuedoElementValue this) then "::" else "")
  ++ psuedoElementValue this.

Definition element (value : string) (this : CSSSelectorBuilder)
  : result CSSSelectorBuilder :=
  _ <- when (Js.truthy (elementValue this)) throwErrorMoreThanOne ;;
  _ <- when (order this >? cssSelectorOrder Element) throwErrorOrder ;;
  Ok (new_CSSSelectorBuilder
        (cssSelectorOrder Element)
        (prefix this)
        value
        (idValue this)
        (classes this)
        (attrs this)
        (pseudoClasses this)
        (psuedoElementValue this)).

Definition id (value : string) (this : CSSSelectorBuilder)
  : result CSSSelectorBuilder :=
  _ <- when (Js.truthy (idValue this)) throwErrorMoreThanOne ;;
  _ <- when (order this >? cssSelectorOrder Id) throwErrorOrder ;;
  Ok (new_CSSSelectorBuilder
        (cssSelectorOrder Id)
        (prefix this)
        (elementValue this)
        value
        (classes this)
        (attrs this)
        (pseudoClasses this)
        (psuedoElementValue this)).

Definition class (value : string) (this : CSSSelectorBuilder)
  : result CSSSelectorBuilder :=
  _ <- when (order this >? cssSelectorOrder Classes) throwErrorOrder ;;
  Ok (new_CSSSelectorBuilder
        (cssSelectorOrder Classes)
        (prefix this)
        (elementValue this)
        (idValue this)
        (classes this ++ [value])%list
        (attrs this)
        (pseudoClasses this)
        (psuedoElementValue this)).

Definition attr (value : string) (this : CSSSelectorBuilder)
  : result CSSSelectorBuilder :=
  _ <- when (order this >? cssSelectorOrder Attrs) throwErrorOrder ;;
  Ok (new_CSSSelectorBuilder
        (cssSelectorOrder Attrs)
        (prefix this)
        (elementValue this)
        (idValue this)
        (classes this)
        (attrs this ++ [value])%list
        (pseudoClasses this)
        (psuedoElementValue this)).

Definition pseudoClass (value : string) (this : CSSSelectorBuilder)
  : result CSSSelectorBuilder :=
  _ <- when (order this >? cssSelectorOrder PseudoClass) throwErrorOrder ;;
  Ok (new_CSSSelectorBuilder
        (cssSelectorOrder PseudoClass)
        (prefix this)
        (elementValue this)
        (idValue this)
        (classes this)
        (attrs this)
        (pseudoClasses this ++ [value])%list
        (psuedoElementValue this)).

Definition pseudoElement (value : string) (this : CSSSelectorBuilder)
  : result CSSSelectorBuilder :=
  _ <- when (Js.truthy (psuedoElementValue this)) throwErrorMoreThanOne ;;
  Ok (new_CSSSelectorBuilder
        (cssSelectorOrder PseudoElement)
        (prefix this)
        (elementValue this)
        (idValue this)
        (classes this)
        (attrs this)
        (pseudoClasses this)
        value).

Definition combine (selector1 : CSSSelectorBuilder) (combinator : string)
    (selector2 : CSSSelectorBuilder) : CSSSelectorBuilder :=
  new_CSSSelectorBuilder
    1000
    (stringify selector1 ++ " " ++ combinator ++ " " ++ stringify selector2)
    ""
    ""
    []
    []
    []
    "".

(** The facade: the builder every chain starts from. *)
Definition cssSelectorBuilder : CSSSelectorBuilder :=
  new_CSSSelectorBuilder (-1) "" "" "" [] [] [] "".

(** ** Vocabulary of the specification *)

(** The two error kinds, named as the specification names them. *)
Definition DuplicateFragmentError : Js.Error :=
  Js.new_Error
    "Element, id and pseudo-element should not occur more then one time inside the selector".

Definition OutOfOrderError : Js.Error :=
  Js.new_Error
    "Selector parts should be arranged in the following order: element, id, class, attribute, pseudo-class, pseudo-element".

(** The fragment-adding method of each category. *)
Definition add (c : Category) (value : string) (this : CSSSelectorBuilder)
  : result CSSSelectorBuilder :=
  match c with
  | Element => element value this
  | Id => id value this
  | Classes => class value this
  | Attrs => attr value this
  | PseudoClass => pseudoClass value this
  | PseudoElement => pseudoElement value this
  end.

(** A chain of method calls [b.m1(v1).m2(v2)...]: the first call that throws
    ends the chain. *)
Definition chain (calls : list (CSSSelectorBuilder -> result CSSSelectorBuilder))
    (b : CSSSelectorBuilder) : result CSSSelectorBuilder :=
  fold_left (fun m call => m >>= call) calls (Ok b).

(** The combinator tokens. *)
Definition combinators : list string := [" "; ">"; "+"; "~"].

(** The builders the public API can produce: the facade, the result of a
    fragment-adding call that returns, and the result of [combine]. *)
Inductive reachable : CSSSelectorBuilder -> Prop :=
| reachable_facade : reachable cssSelectorBuilder
| reachable_add (c : Category) (value : string) (b b' : CSSSelectorBuilder) :
    reachable b -> add c value b = Ok b' -> reachable b'
| reachable_combine (s1 s2 : CSSSelectorBuilder) (combinator : string) :
    reachable s1 -> reachable s2 -> In combinator combinators ->
    reachable (combine s1 combinator s2).

(** [lineage b b']: [b'] descends from [b] through fragment-adding calls
    that returned. *)
Inductive lineage (b : CSSSelectorBuilder) : CSSSelectorBuilder -> Prop :=
| lineage_here : lineage b b
| lineage_call (c : Category) (value : string) (b' b'' : CSSSelectorBuilder) :
    lineage b b' -> add c value b' = Ok b'' -> lineage b b''.

(** Concatenation of the parts of one category, in order, nothing between. *)
Definition concat_all (parts : list string) : string :=
  fold_right append "" parts.

(** The rendering the specification describes: prefix, element, [#id],
    [.class] per class, [[attribute]] per attribute, [:name] per
    pseudo-class, [::name] for the pseudo-element, nothing between the
    categories nor between the parts of one category. *)
Definition spec_rendering (b : CSSSelectorBuilder) : string :=
  prefix b ++ elementValue b
  ++ (if Js.truthy (idValue b) then "#" ++ idValue b else "")
  ++ concat_all (map (fun c => "." ++ c) (classes b))
  ++ concat_all (map (fun a => "[" ++ a ++ "]") (attrs b))
  ++ concat_all (map (fun p => ":" ++ p) (pseudoClasses b))
  ++ (if Js.truthy (psuedoElementValue b) then "::" ++ psuedoElementValue b else "").

(** ** Method calls as transitions on the receiver

    A call either throws or returns a value and leaves the receiver with
    some fields.  The body of [stringify] accesses the receiver through
    field reads only: it contains no assignment and no [throw]. *)
Definition Call (A : Type) : Type :=
  CSSSelectorBuilder -> result (A * CSSSelectorBuilder).

Definition call_ret {A : Type} (a : A) : Call A :=
  fun this => Ok (a, this).

Definition call_bind {A B : Type} (m : Call A) (k : A -> Call B) : Call B :=
  fun this =>
    match m this with
    | Ok (a, this') => k a this'
    | Throw e => Throw e
    end.

(** [this.field] *)
Definition read {A : Type} (field : CSSSelectorBuilder -> A) : Call A :=
  fun this => Ok (field this, this).

(** [stringify] as such a call: the substitutions of the template literal,
    evaluated from left to right. *)
Definition call_stringify : Call string :=
  call_bind (read prefix) (fun s1 =>
  call_bind (read elementValue) (fun s2 =>
  call_bind (read idValue) (fun c3 =>
  call_bind (read idValue) (fun s4 =>
  call_bind (read classes) (fun a5 =>
  call_bind (read attrs) (fun a6 =>
  call_bind (read pseudoClasses) (fun a7 =>
  call_bind (read psuedoElementValue) (fun c8 =>
  call_bind (read psuedoElementValue) (fun s9 =>
  call_ret
    (s1 ++ s2 ++ (if Js.truthy c3 then "#" else "") ++ s4
     ++ Js.join "" (map (fun cssClass => "." ++ cssClass) a5)
     ++ Js.toString (map (fun attr => "[" ++ attr ++ "]") a6)
     ++ Js.join "" (map (fun pseudoClass => ":" ++ pseudoClass) a7)
     ++ (if Js.truthy c8 then "::" else "") ++ s9)))))))))).

(** ** Vocabulary for chains of calls *)

(** The categories a selector holds one value of: the methods that test
    for a duplicate. *)
Definition single (c : Category) : bool :=
  match c with
  | Element | Id | PseudoElement => true
  | Classes | Attrs | PseudoClass => false
  end.

(** The value a builder holds for a single-valued category, the one the
    duplicate test of its method reads; empty for the other categories,
    whose methods have no such test. *)
Definition stored (c : Category) (b : CSSSelectorBuilder) : string :=
  match c with
  | Element => elementValue b
  | Id => idValue b
  | PseudoElement => psuedoElementValue b
  | Classes | Attrs | PseudoClass => ""
  end.

(** [follows last c]: category [c] comes after a builder whose [order] is
    [last], strictly after for a single-valued category. *)
Definition follows (last : Z) (c : Category) : bool :=
  if single c then (last <? cssSelectorOrder c)%Z
  else (last <=? cssSelectorOrder c)%Z.

(** The categories of a chain are arranged in order from [last] on. *)
Fixpoint well_ordered (last : Z) (cs : list Category) : bool :=
  match cs with
  | [] => true
  | c :: rest => follows last c && well_ordered (cssSelectorOrder c) rest
  end.

(** The calls [.c1(v1).c2(v2)...] of a list of categories and values. *)
Definition calls_of (l : list (Category * string))
  : list (CSSSelectorBuilder -> result CSSSelectorBuilder) :=
  map (fun cv => add (fst cv) (snd cv)) l.

(** What a call of category [c] with [value] on [b] adds to the rendering:
    the value behind the punctuation of its category; nothing for an empty
    id or pseudo-element; a comma before every attribute but the first. *)
Definition piece (c : Category) (value : string) (b : CSSSelectorBuilder)
  : string :=
  match c with
  | Element => value
  | Id => if Js.truthy value then "#" ++ value else ""
  | Classes => "." ++ value
  | Attrs =>
      match attrs b with
      | [] => "[" ++ value ++ "]"
      | _ :: _ => "," ++ "[" ++ value ++ "]"
      end
  | PseudoClass => ":" ++ value
  | PseudoElement => if Js.truthy value then "::" ++ value else ""
  end.

(** The categories a builder holds something of lie at or below its
    [order], and a pseudo-element is held at [order] 5 only. *)
Definition populated_below_order (b : CSSSelectorBuilder) : Prop :=
  (elementValue b <> "" -> cssSelectorOrder Element <= order b)
  /\ (idValue b <> "" -> cssSelectorOrder Id <= order b)
  /\ (classes b <> [] -> cssSelectorOrder Classes <= order b)
  /\ (attrs b <> [] -> cssSelectorOrder Attrs <= order b)
  /\ (pseudoClasses b <> [] -> cssSelectorOrder PseudoClass <= order b)
  /\ (psuedoElementValue b <> "" -> order b = cssSelectorOrder PseudoElement).

(** On a chain of calls with values that are not empty, [order] tells which
    single-valued categories are set. *)
Definition order_tells_set (b : CSSSelectorBuilder) : Prop :=
  order b <= cssSelectorOrder PseudoElement
  /\ (order b = cssSelectorOrder Element -> elementValue b <> "")
  /\ (elementValue b <> "" -> cssSelectorOrder Element <= order b)
  /\ (order b = cssSelectorOrder Id -> idValue b <> "")
  /\ (idValue b <> "" -> cssSelectorOrder Id <= order b)
  /\ (order b = cssSelectorOrder PseudoElement <-> psuedoElementValue b <> "").

(** The double-quote character, for selectors that contain one. *)
Definition dquote : string := String (Ascii.ascii_of_nat 34) "".

(** * Properties *)

(** ** The examples of the documentation comment *)

Example doc_example_1 :
  (Ok cssSelectorBuilder >>= id "main" >>= class "container" >>= class "editable"
   >>= fun b => Ok (stringify b))
  = Ok "#main.container.editable".
Proof. reflexivity. Qed.

Example doc_example_2 :
  (Ok cssSelectorBuilder >>= element "a" >>= attr ("href$=" ++ dquote ++ ".png" ++ dquote)
   >>= pseudoClass "focus" >>= fun b => Ok (stringify b))
  = Ok ("a[href$=" ++ dquote ++ ".png" ++ dquote ++ "]:focus").
Proof. reflexivity. Qed.

Example doc_example_3 :
  (s1 <- Ok cssSelectorBuilder >>= element "div" >>= id "main"
         >>= class "container" >>= class "draggable" ;;
   s2 <- (s3 <- Ok cssSelectorBuilder >>= element "table" >>= id "data" ;;
          s4 <- (s5 <- Ok cssSelectorBuilder >>= element "tr"
                        >>= pseudoClass "nth-of-type(even)" ;;
                 s6 <- Ok cssSelectorBuilder >>= element "td"
                        >>= pseudoClass "nth-of-type(even)" ;;
                 Ok (combine s5 " " s6)) ;;
          Ok (combine s3 "~" s4)) ;;
   Ok (stringify (combine s1 "+" s2)))
  = Ok "div#main.container.draggable + table#data ~ tr:nth-of-type(even)   td:nth-of-type(even)".
Proof. reflexivity. Qed.

(** ** Strings and joins *)

Lemma append_assoc (a b c : string) : (a ++ b) ++ c = a ++ b ++ c.
Proof.
  induction a as [|ch a IH]; simpl; [reflexivity | now rewrite IH].
Qed.

Lemma append_nil_r (s : string) : s ++ "" = s.
Proof.
  induction s as [|ch s IH]; simpl; [reflexivity | now rewrite IH].
Qed.

Lemma append_cancel_l (a x y : string) : a ++ x = a ++ y -> x = y.
Proof.
  induction a as [|ch a IH]; simpl; intros H; [exact H|].
  injection H as H. now apply IH.
Qed.

Lemma truthy_true_iff (s : string) : Js.truthy s = true <-> s <> "".
Proof.
  destruct s; simpl; split; intros H; congruence.
Qed.

Lemma truthy_false_iff (s : string) : Js.truthy s = false <-> s = "".
Proof.
  destruct s; simpl; split; intros H; congruence.
Qed.

Lemma join_cons2 (sep x y : string) (rest : list string) :
  Js.join sep (x :: y :: rest) = x ++ sep ++ Js.join sep (y :: rest).
Proof. reflexivity. Qed.

Lemma join_nosep (a : list string) : Js.join "" a = concat_all a.
Proof.
  induction a as [|x [|y rest] IH].
  - reflexivity.
  - simpl. now rewrite append_nil_r.
  - rewrite join_cons2, IH. reflexivity.
Qed.

Lemma concat_all_app (l1 l2 : list string) :
  concat_all (l1 ++ l2)%list = concat_all l1 ++ concat_all l2.
Proof.
  induction l1 as [|x l1 IH]; simpl; [reflexivity|].
  now rewrite IH, append_assoc.
Qed.

Lemma toString_short (a : list string) :
  (List.length a <= 1)%nat -> Js.toString a = concat_all a.
Proof.
  destruct a as [|x [|y rest]]; simpl; intros H.
  - reflexivity.
  - now rewrite append_nil_r.
  - lia.
Qed.

(** ** What [stringify] renders *)

(** [stringify] with the two template fragments around the id and around
    the pseudo-element merged, and the joins on the empty separator read as
    plain concatenations: only the attributes keep their comma. *)
Lemma stringify_shape (b : CSSSelectorBuilder) :
  stringify b =
  prefix b ++ elementValue b
  ++ (if Js.truthy (idValue b) then "#" ++ idValue b else "")
  ++ concat_all (map (fun c => "." ++ c) (classes b))
  ++ Js.join "," (map (fun a => "[" ++ a ++ "]") (attrs b))
  ++ concat_all (map (fun p => ":" ++ p) (pseudoClasses b))
  ++ (if Js.truthy (psuedoElementValue b) then "::" ++ psuedoElementValue b else "").
Proof.
  unfold stringify, Js.toString. rewrite !join_nosep.
  do 2 f_equal.
  destruct (idValue b) as [|c i]; cbn [Js.truthy].
  - cbn [append]. do 3 f_equal. now destruct (psuedoElementValue b).
  - rewrite append_assoc. do 4 f_equal. now destruct (psuedoElementValue b).
Qed.

(** With at most one attribute [stringify] is the specified rendering. *)
Lemma stringify_spec_short (b : CSSSelectorBuilder) :
  (List.length (attrs b) <= 1)%nat -> stringify b = spec_rendering b.
Proof.
  intros H. rewrite stringify_shape. unfold spec_rendering.
  do 4 f_equal.
  change (Js.join ",") with Js.toString.
  rewrite toString_short; [reflexivity | now rewrite length_map].
Qed.

(** With two attributes or more, a comma separates the bracketed groups and
    [stringify] is not the specified rendering. *)
Lemma stringify_not_spec (b : CSSSelectorBuilder) (a1 a2 : string)
    (rest : list string) :
  attrs b = a1 :: a2 :: rest -> stringify b <> spec_rendering b.
Proof.
  intros Hattrs Heq. rewrite stringify_shape in Heq. unfold spec_rendering in Heq.
  rewrite Hattrs in Heq. cbn [map] in Heq. rewrite join_cons2 in Heq.
  cbn [concat_all fold_right] in Heq.
  do 4 apply append_cancel_l in Heq.
  rewrite !append_assoc in Heq.
  do 3 apply append_cancel_l in Heq.
  cbn in Heq. discriminate Heq.
Qed.

(** ** The guards of the fragment-adding methods *)

Lemma errors_differ : DuplicateFragmentError <> OutOfOrderError.
Proof. discriminate. Qed.

(** Each method read as a decision list: the guards in the order the
    method tests them, then the builder it constructs. *)
Lemma element_cases (value : string) (b : CSSSelectorBuilder) :
  element value b =
  if Js.truthy (elementValue b) then Throw DuplicateFragmentError
  else if order b >? 0 then Throw OutOfOrderError
  else Ok (new_CSSSelectorBuilder 0 (prefix b) value (idValue b) (classes b)
             (attrs b) (pseudoClasses b) (psuedoElementValue b)).
Proof.
  unfold element, when.
  destruct (Js.truthy (elementValue b)); [reflexivity|].
  cbn. now destruct (order b >? 0).
Qed.

Lemma id_cases (value : string) (b : CSSSelectorBuilder) :
  id value b =
  if Js.truthy (idValue b) then Throw DuplicateFragmentError
  else if order b >? 1 then Throw OutOfOrderError
  else Ok (new_CSSSelectorBuilder 1 (prefix b) (elementValue b) value (classes b)
             (attrs b) (pseudoClasses b) (psuedoElementValue b)).
Proof.
  unfold id, when.
  destruct (Js.truthy (idValue b)); [reflexivity|].
  cbn. now destruct (order b >? 1).
Qed.

Lemma class_cases (value : string) (b : CSSSelectorBuilder) :
  class value b =
  if order b >? 2 then Throw OutOfOrderError
  else Ok (new_CSSSelectorBuilder 2 (prefix b) (elementValue b) (idValue b)
             (classes b ++ [value]) (attrs b) (pseudoClasses b)
             (psuedoElementValue b)).
Proof.
  unfold class, when. cbn. now destruct (order b >? 2).
Qed.

Lemma attr_cases (value : string) (b : CSSSelectorBuilder) :
  attr value b =
  if order b >? 3 then Throw OutOfOrderError
  else Ok (new_CSSSelectorBuilder 3 (prefix b) (elementValue b) (idValue b)
             (classes b) (attrs b ++ [value]) (pseudoClasses b)
             (psuedoElementValue b)).
Proof.
  unfold attr, when. cbn. now destruct (order b >? 3).
Qed.

Lemma pseudoClass_cases (value : string) (b : CSSSelectorBuilder) :
  pseudoClass value b =
  if order b >? 4 then Throw OutOfOrderError
  else Ok (new_CSSSelectorBuilder 4 (prefix b) (elementValue b) (idValue b)
             (classes b) (attrs b) (pseudoClasses b ++ [value])
             (psuedoElementValue b)).
Proof.
  unfold pseudoClass, when. cbn. now destruct (order b >? 4).
Qed.

Lemma pseudoElement_cases (value : string) (b : CSSSelectorBuilder) :
  pseudoElement value b =
  if Js.truthy (psuedoElementValue b) then Throw DuplicateFragmentError
  else Ok (new_CSSSelectorBuilder 5 (prefix b) (elementValue b) (idValue b)
             (classes b) (attrs b) (pseudoClasses b) value).
Proof.
  unfold pseudoElement, when.
  now destruct (Js.truthy (psuedoElementValue b)).
Qed.

(** Splits a call of [add] along the guards of the method it dispatches to,
    leaving the comparisons as hypotheses on [order]. *)
Ltac add_cases c b :=
  destruct c; cbn [add];
  rewrite ?element_cases, ?id_cases, ?class_cases, ?attr_cases,
    ?pseudoClass_cases, ?pseudoElement_cases;
  repeat match goal with
    | |- context [Js.truthy ?s] => destruct (Js.truthy s) eqn:?
    | |- context [?x >? ?y] => destruct (Z.gtb_spec x y)
    end.

Lemma Category_eq_dec (c1 c2 : Category) : {c1 = c2} + {c1 <> c2}.
Proof. decide equality. Defined.

(** A call throws one of the two errors or returns. *)
Lemma add_outcome (c : Category) (value : string) (b : CSSSelectorBuilder) :
  add c value b = Throw DuplicateFragmentError
  \/ add c value b = Throw OutOfOrderError
  \/ exists b', add c value b = Ok b'.
Proof.
  add_cases c b; auto; right; right; eexists; reflexivity.
Qed.

(** The category of the call is the [order] of the builder it returns. *)
Lemma add_order (c : Category) (value : string) (b b' : CSSSelectorBuilder) :
  add c value b = Ok b' -> order b' = cssSelectorOrder c.
Proof.
  add_cases c b; intros Hret; inversion Hret; reflexivity.
Qed.

(** The five methods that test [order] never lower it. *)
Lemma guarded_add_monotone (c : Category) (value : string)
    (b b' : CSSSelectorBuilder) :
  c <> PseudoElement -> add c value b = Ok b' -> order b <= order b'.
Proof.
  intros Hc. add_cases c b; intros Hret; inversion Hret; cbn; try lia.
  now contradiction Hc.
Qed.

(** The five methods that test [order] reject a category below it. *)
Lemma guarded_add_rejects (c : Category) (value : string)
    (b : CSSSelectorBuilder) :
  c <> PseudoElement -> cssSelectorOrder c < order b ->
  exists e, add c value b = Throw e.
Proof.
  intros Hc. add_cases c b; cbn; intros Hlt; try lia; try (eexists; reflexivity).
  now contradiction Hc.
Qed.

(** [pseudoElement] does not lower an [order] that is a category's. *)
Lemma pseudoElement_monotone_below (value : string) (b b' : CSSSelectorBuilder) :
  order b <= cssSelectorOrder PseudoElement ->
  pseudoElement value b = Ok b' -> order b <= order b'.
Proof.
  rewrite pseudoElement_cases.
  destruct (Js.truthy (psuedoElementValue b)); intros Hle H; inversion H.
  exact Hle.
Qed.

(** The [order] of a builder of the public API. *)
Lemma reachable_order (b : CSSSelectorBuilder) :
  reachable b ->
  order b = -1 \/ (exists c, order b = cssSelectorOrder c) \/ order b = 1000.
Proof.
  intros H. induction H as [|c value b b' _ _ Hadd|].
  - now left.
  - right. left. exists c. now apply add_order with value b.
  - now right; right.
Qed.

(** X8. A call that returns lowers [order] only in one situation:
    [pseudoElement] on a builder that holds [combine]'s 1000. *)
Lemma order_lowered_only_after_combine (c : Category) (value : string)
    (b b' : CSSSelectorBuilder) :
  reachable b -> add c value b = Ok b' -> order b' < order b ->
  c = PseudoElement /\ order b = 1000.
Proof.
  intros Hr Hadd Hlt.
  destruct (Category_eq_dec c PseudoElement) as [->|Hc].
  - split; [reflexivity|].
    pose proof (add_order _ _ _ _ Hadd) as Ho. cbn in Ho.
    destruct (reachable_order b Hr) as [H|[[c' H]|H]]; try assumption;
      rewrite H in Hlt; [lia | destruct c'; cbn in Hlt; lia].
  - pose proof (guarded_add_monotone c value b b' Hc Hadd). lia.
Qed.

(** ** Lineages *)

(** A call that returns keeps the element, id and pseudo-element that are
    already set. *)
Lemma add_keeps_set (c : Category) (value : string) (b b' : CSSSelectorBuilder) :
  add c value b = Ok b' ->
  (elementValue b <> "" -> elementValue b' = elementValue b)
  /\ (idValue b <> "" -> idValue b' = idValue b)
  /\ (psuedoElementValue b <> "" -> psuedoElementValue b' = psuedoElementValue b).
Proof.
  add_cases c b; intros Hret; inversion Hret; cbn; repeat split;
    try reflexivity; intros Hne;
    match goal with
    | E : Js.truthy _ = false |- _ => apply truthy_false_iff in E; congruence
    end.
Qed.

Lemma lineage_keeps_set (b b' : CSSSelectorBuilder) :
  lineage b b' ->
  (elementValue b <> "" -> elementValue b' = elementValue b)
  /\ (idValue b <> "" -> idValue b' = idValue b)
  /\ (psuedoElementValue b <> "" -> psuedoElementValue b' = psuedoElementValue b).
Proof.
  induction 1 as [|c value b' b'' _ [IHe [IHi IHp]] Hadd].
  - repeat split; reflexivity.
  - destruct (add_keeps_set _ _ _ _ Hadd) as [He [Hi Hp]].
    repeat split; intros Hne.
    + rewrite <- (IHe Hne). apply He. now rewrite (IHe Hne).
    + rewrite <- (IHi Hne). apply Hi. now rewrite (IHi Hne).
    + rewrite <- (IHp Hne). apply Hp. now rewrite (IHp Hne).
Qed.

Lemma lineage_trans (b1 b2 b3 : CSSSelectorBuilder) :
  lineage b1 b2 -> lineage b2 b3 -> lineage b1 b3.
Proof.
  intros H12 H23. induction H23 as [|c value b' b'' _ IH Hadd].
  - exact H12.
  - now apply lineage_call with c value b'.
Qed.

(** From a builder of the public API a lineage stays within it. *)
Lemma lineage_reachable (b b' : CSSSelectorBuilder) :
  reachable b -> lineage b b' -> reachable b'.
Proof.
  intros Hr Hl. induction Hl as [|c value b' b'' _ IH Hadd].
  - exact Hr.
  - now apply reachable_add with c value b'.
Qed.

(** ** Chains of calls *)

Lemma chain_throw (calls : list (CSSSelectorBuilder -> result CSSSelectorBuilder))
    (e : Js.Error) :
  fold_left (fun m call => m >>= call) calls (Throw e) = Throw e.
Proof.
  induction calls as [|call calls IH]; cbn; [reflexivity | exact IH].
Qed.

Lemma chain_cons (call : CSSSelectorBuilder -> result CSSSelectorBuilder)
    (calls : list (CSSSelectorBuilder -> result CSSSelectorBuilder))
    (b : CSSSelectorBuilder) :
  chain (call :: calls) b = call b >>= chain calls.
Proof.
  unfold chain. cbn. destruct (call b) as [b'|e]; cbn.
  - reflexivity.
  - apply chain_throw.
Qed.

(** A run of [class] calls on a builder whose [order] admits a class:
    every call returns, the names are appended in order, nothing else
    changes but [order]. *)
Lemma class_chain (names : list string) :
  forall b : CSSSelectorBuilder,
    order b <= cssSelectorOrder Classes ->
    exists b',
      chain (map class names) b = Ok b'
      /\ classes b' = (classes b ++ names)%list
      /\ prefix b' = prefix b /\ elementValue b' = elementValue b
      /\ idValue b' = idValue b /\ attrs b' = attrs b
      /\ pseudoClasses b' = pseudoClasses b
      /\ psuedoElementValue b' = psuedoElementValue b.
Proof.
  induction names as [|name names IH]; intros b Hb; cbn [map].
  - exists b. rewrite app_nil_r. repeat split; reflexivity.
  - rewrite chain_cons, class_cases.
    destruct (Z.gtb_spec (order b) 2) as [Hgt|_]; [cbn in Hb; lia|].
    cbn [bind].
    destruct (IH (new_CSSSelectorBuilder 2 (prefix b) (elementValue b) (idValue b)
                    (classes b ++ [name]) (attrs b) (pseudoClasses b)
                    (psuedoElementValue b))) as [b' [Hc [Hcl Hrest]]].
    + cbn. lia.
    + exists b'. cbn in Hcl, Hrest. rewrite <- app_assoc in Hcl.
      split; [exact Hc|]. split; [exact Hcl | exact Hrest].
Qed.

(** * The claims *)

(** C1. The claim: on every builder of a valid chain [stringify] is the
    specified rendering, attributes adjacent with nothing between them.  The
    code: [element('a').attr('x').attr('y')] is a valid chain, it returns, and
    [stringify] renders [a[x],[y]] where the specified rendering is [a[x][y]]:
    the attribute groups are substituted as an array, without the [join('')]
    that the classes and the pseudo-classes have. *)
Theorem stringify_two_attributes_comma :
  exists b : CSSSelectorBuilder,
    chain [element "a"; attr "x"; attr "y"] cssSelectorBuilder = Ok b
    /\ reachable b
    /\ attrs b = ["x"; "y"]
    /\ stringify b = "a[x],[y]"
    /\ spec_rendering b = "a[x][y]"
    /\ stringify b <> spec_rendering b.
Proof.
  exists (new_CSSSelectorBuilder 3 "" "a" "" [] ["x"; "y"] [] "").
  split; [reflexivity|]. split.
  - apply reachable_add with Attrs "y"
      (new_CSSSelectorBuilder 3 "" "a" "" [] ["x"] [] ""); [|reflexivity].
    apply reachable_add with Attrs "x"
      (new_CSSSelectorBuilder 0 "" "a" "" [] [] [] ""); [|reflexivity].
    apply reachable_add with Element "a" cssSelectorBuilder; [|reflexivity].
    apply reachable_facade.
  - repeat split; try reflexivity. cbn. discriminate.
Qed.

(** C2. For all builders [selector1] and [selector2] and every combinator
    token, [combine] produces a builder whose [stringify] is
    [selector1.stringify() + " " + combinator + " " + selector2.stringify()],
    held in [prefix], every other field empty and [order] 1000;
    [combine(element('div').id('main'), '+', element('table').id('data'))]
    renders [div#main + table#data]; and with the descendant combinator, a
    space itself, the two sides are three spaces apart. *)
Theorem combine_stringify (selector1 selector2 : CSSSelectorBuilder)
    (combinator : string) :
  let c := combine selector1 combinator selector2 in
  stringify c = stringify selector1 ++ " " ++ combinator ++ " " ++ stringify selector2
  /\ prefix c = stringify selector1 ++ " " ++ combinator ++ " " ++ stringify selector2
  /\ elementValue c = "" /\ idValue c = ""
  /\ classes c = [] /\ attrs c = [] /\ pseudoClasses c = []
  /\ psuedoElementValue c = ""
  /\ order c = 1000
  /\ (s1 <- chain [element "div"; id "main"] cssSelectorBuilder ;;
      s2 <- chain [element "table"; id "data"] cssSelectorBuilder ;;
      Ok (stringify (combine s1 "+" s2))) = Ok "div#main + table#data"
  /\ stringify (combine selector1 " " selector2)
     = stringify selector1 ++ "   " ++ stringify selector2.
Proof.
  assert (Hs : forall k, stringify (combine selector1 k selector2)
                = stringify selector1 ++ " " ++ k ++ " " ++ stringify selector2).
  { intros k. unfold stringify at 1. cbn. now rewrite append_nil_r. }
  cbv zeta. repeat split; try reflexivity.
  - apply Hs.
  - rewrite Hs. reflexivity.
Qed.

(** C3. The claim: on a builder of the public API a fragment-adding call that
    returns never lowers [order], and a call for a category below [order]
    is rejected.  The code: [combine(element('a'), '+', element('b'))] holds
    [order] 1000; [pseudoElement('x')] on it tests no order, returns, and
    the builder it returns holds [order] 5. *)
Theorem pseudoElement_after_combine_lowers_order :
  exists c r : CSSSelectorBuilder,
    (s1 <- element "a" cssSelectorBuilder ;;
     s2 <- element "b" cssSelectorBuilder ;;
     Ok (combine s1 "+" s2)) = Ok c
    /\ reachable c
    /\ order c = 1000
    /\ cssSelectorOrder PseudoElement < order c
    /\ add PseudoElement "x" c = Ok r
    /\ order r = 5
    /\ order r < order c
    /\ stringify r = "a + b::x".
Proof.
  exists (combine (new_CSSSelectorBuilder 0 "" "a" "" [] [] [] "") "+"
                  (new_CSSSelectorBuilder 0 "" "b" "" [] [] [] "")).
  eexists. split; [reflexivity|]. split.
  - apply reachable_combine.
    + apply reachable_add with Element "a" cssSelectorBuilder;
        [apply reachable_facade | reflexivity].
    + apply reachable_add with Element "b" cssSelectorBuilder;
        [apply reachable_facade | reflexivity].
    + cbn. tauto.
  - repeat split; try reflexivity.
Qed.

(** C4, as the code has it.  [element] tests the duplicate before the
    order: when [a] is not empty, [element(a).id(b)] returns a builder that
    holds [order] 1 and the element [a], and [.element(c)] on it throws the
    duplicate error, whatever [b] and [c] are. *)
Theorem element_after_id_throws_duplicate (a b c : string) :
  a <> "" ->
  exists r : CSSSelectorBuilder,
    chain [element a; id b] cssSelectorBuilder = Ok r
    /\ elementValue r = a
    /\ order r = cssSelectorOrder Id
    /\ cssSelectorOrder Element < order r
    /\ element c r = Throw DuplicateFragmentError
    /\ chain [element a; id b; element c] cssSelectorBuilder
       = Throw DuplicateFragmentError.
Proof.
  intros Ha.
  exists (new_CSSSelectorBuilder 1 "" a b [] [] [] "").
  assert (Ht : Js.truthy a = true) by now apply truthy_true_iff.
  assert (He : element c (new_CSSSelectorBuilder 1 "" a b [] [] [] "")
               = Throw DuplicateFragmentError).
  { rewrite element_cases. cbn. now rewrite Ht. }
  repeat split; try reflexivity; exact He.
Qed.

Lemma element_after_id_throws_duplicate_witness :
  "a" <> ""
  /\ exists r : CSSSelectorBuilder,
       chain [element "a"; id "b"] cssSelectorBuilder = Ok r
       /\ elementValue r = "a"
       /\ order r = cssSelectorOrder Id
       /\ cssSelectorOrder Element < order r
       /\ element "c" r = Throw DuplicateFragmentError
       /\ chain [element "a"; id "b"; element "c"] cssSelectorBuilder
          = Throw DuplicateFragmentError.
Proof.
  split; [discriminate|].
  apply (element_after_id_throws_duplicate "a" "b" "c"). discriminate.
Defined.

(** C4, as the claim states it, fails: the chain
    [element('a').id('b').element('c')] throws the duplicate error, which is
    not the order error. *)
Lemma element_after_id_not_order_error :
  chain [element "a"; id "b"; element "c"] cssSelectorBuilder
  = Throw DuplicateFragmentError
  /\ chain [element "a"; id "b"; element "c"] cssSelectorBuilder
     <> Throw OutOfOrderError.
Proof.
  split; [reflexivity|]. cbn. discriminate.
Qed.

(** The value a setter was called with is the value its builder holds. *)
Lemma add_sets (c : Category) (x : string) (b0 b : CSSSelectorBuilder) :
  add c x b0 = Ok b ->
  match c with
  | Element => elementValue b = x
  | Id => idValue b = x
  | PseudoElement => psuedoElementValue b = x
  | _ => True
  end.
Proof.
  add_cases c b0; intros Hret; inversion Hret; cbn; reflexivity || exact I.
Qed.

(** C5, as the code has it.  Once [element], [id] or [pseudoElement] has
    returned a builder for a value that is not empty, the same setter throws
    the duplicate error on that builder and on every builder of its lineage,
    whatever its argument and whatever [order] is. *)
Theorem duplicate_rejected_on_lineage (c : Category) (x value : string)
    (b0 b b' : CSSSelectorBuilder) :
  In c [Element; Id; PseudoElement] -> x <> "" ->
  add c x b0 = Ok b -> lineage b b' ->
  add c value b' = Throw DuplicateFragmentError.
Proof.
  intros Hin Hx Hadd Hl.
  pose proof (add_sets _ _ _ _ Hadd) as Hset.
  destruct (lineage_keeps_set b b' Hl) as [He [Hi Hp]].
  apply truthy_true_iff in Hx.
  destruct Hin as [<-|[<-|[<-|[]]]]; cbn [add].
  - rewrite element_cases, He, Hset, Hx; [reflexivity|].
    rewrite Hset. now apply truthy_true_iff.
  - rewrite id_cases, Hi, Hset, Hx; [reflexivity|].
    rewrite Hset. now apply truthy_true_iff.
  - rewrite pseudoElement_cases, Hp, Hset, Hx; [reflexivity|].
    rewrite Hset. now apply truthy_true_iff.
Qed.

Lemma duplicate_rejected_on_lineage_witness :
  (In Id [Element; Id; PseudoElement] /\ "x" <> ""
   /\ add Id "x" cssSelectorBuilder
      = Ok (new_CSSSelectorBuilder 1 "" "" "x" [] [] [] "")
   /\ lineage (new_CSSSelectorBuilder 1 "" "" "x" [] [] [] "")
        (new_CSSSelectorBuilder 4 "" "" "x" ["k"] [] ["hover"] ""))
  /\ add Id "y" (new_CSSSelectorBuilder 4 "" "" "x" ["k"] [] ["hover"] "")
     = Throw DuplicateFragmentError.
Proof.
  assert (Hl : lineage (new_CSSSelectorBuilder 1 "" "" "x" [] [] [] "")
                 (new_CSSSelectorBuilder 4 "" "" "x" ["k"] [] ["hover"] "")).
  { apply lineage_call with PseudoClass "hover"
      (new_CSSSelectorBuilder 2 "" "" "x" ["k"] [] [] ""); [|reflexivity].
    apply lineage_call with Classes "k"
      (new_CSSSelectorBuilder 1 "" "" "x" [] [] [] ""); [|reflexivity].
    apply lineage_here. }
  split.
  - repeat split; [cbn; tauto | discriminate | exact Hl].
  - apply (duplicate_rejected_on_lineage Id "x" "y" cssSelectorBuilder
             (new_CSSSelectorBuilder 1 "" "" "x" [] [] [] "")).
    + cbn. tauto.
    + discriminate.
    + reflexivity.
    + exact Hl.
Defined.

(** C5, as the claim states it, fails when the value set first is the empty
    string: [id('').id('y')] returns a builder, the second call is not
    rejected. *)
Lemma second_id_after_empty_returns :
  chain [id ""; id "y"] cssSelectorBuilder
  = Ok (new_CSSSelectorBuilder 1 "" "" "y" [] [] [] "").
Proof. reflexivity. Qed.

(** C6. Whatever the two selectors and the combinator, the builder that
    [combine] produces holds an [order] above the pseudo-element's, and
    [element], [id], [class], [attr] and [pseudoClass] on it all throw the
    order error. *)
Theorem combined_rejects_guarded_calls (selector1 selector2 : CSSSelectorBuilder)
    (combinator value : string) :
  let c := combine selector1 combinator selector2 in
  cssSelectorOrder PseudoElement < order c
  /\ element value c = Throw OutOfOrderError
  /\ id value c = Throw OutOfOrderError
  /\ class value c = Throw OutOfOrderError
  /\ attr value c = Throw OutOfOrderError
  /\ pseudoClass value c = Throw OutOfOrderError.
Proof.
  cbv zeta. repeat split.
Qed.

(** C7. From the facade any run of [class] calls returns, whatever the names
    and however often one repeats; the builder holds the names in the order
    of the calls and renders each behind a dot;
    [class('a').class('b').class('a')] renders [.a.b.a]; and on any builder
    a [class] call that returns has appended its name to [classes]. *)
Theorem class_repeats_in_order :
  (forall names : list string,
      exists r : CSSSelectorBuilder,
        chain (map class names) cssSelectorBuilder = Ok r
        /\ classes r = names
        /\ stringify r = concat_all (map (fun c => "." ++ c) names))
  /\ (forall a b : string,
        exists r : CSSSelectorBuilder,
          chain [class a; class b; class a] cssSelectorBuilder = Ok r
          /\ classes r = [a; b; a]
          /\ stringify r = "." ++ a ++ "." ++ b ++ "." ++ a)
  /\ (r <- chain [class "a"; class "b"; class "a"] cssSelectorBuilder ;;
      Ok (stringify r)) = Ok ".a.b.a"
  /\ (forall (value : string) (b b' : CSSSelectorBuilder),
        class value b = Ok b' ->
        classes b' = (classes b ++ [value])%list
        /\ attrs b' = attrs b /\ pseudoClasses b' = pseudoClasses b).
Proof.
  assert (Hgen : forall names : list string,
      exists r : CSSSelectorBuilder,
        chain (map class names) cssSelectorBuilder = Ok r
        /\ classes r = names
        /\ stringify r = concat_all (map (fun c => "." ++ c) names)).
  { intros names.
    destruct (class_chain names cssSelectorBuilder) as
      [r [Hc [Hcl [Hp [He [Hi [Ha [Hpc Hpe]]]]]]]]; [cbn; lia|].
    exists r. split; [exact Hc|]. split; [exact Hcl|].
    rewrite stringify_shape, Hcl, Hp, He, Hi, Ha, Hpc, Hpe. cbn.
    apply append_nil_r. }
  split; [exact Hgen|]. split; [|split; [reflexivity|]].
  - intros a b. destruct (Hgen [a; b; a]) as [r [Hc [Hcl Hs]]].
    exists r. split; [exact Hc|]. split; [exact Hcl|].
    rewrite Hs. cbn. now rewrite append_nil_r.
  - intros value b b'. rewrite class_cases.
    destruct (order b >? 2); intros Hret; inversion Hret. cbn. tauto.
Qed.

Lemma class_repeats_in_order_witness :
  class "a" (new_CSSSelectorBuilder 2 "" "" "" ["a"; "b"] [] [] "")
  = Ok (new_CSSSelectorBuilder 2 "" "" "" ["a"; "b"; "a"] [] [] "")
  /\ classes (new_CSSSelectorBuilder 2 "" "" "" ["a"; "b"; "a"] [] [] "")
     = (["a"; "b"] ++ ["a"])%list.
Proof.
  split; [reflexivity|].
  apply (proj2 (proj2 (proj2 class_repeats_in_order)) "a"
           (new_CSSSelectorBuilder 2 "" "" "" ["a"; "b"] [] [] "")).
  reflexivity.
Defined.

(** C8. On every builder a call of [stringify] returns, never throws, and
    leaves the receiver as it was; two calls in a row return the same
    string. *)
Theorem stringify_twice (b : CSSSelectorBuilder) :
  call_stringify b = Ok (stringify b, b)
  /\ call_bind call_stringify (fun first =>
       call_bind call_stringify (fun second =>
         call_ret (first, second))) b
     = Ok ((stringify b, stringify b), b).
Proof.
  split; reflexivity.
Qed.

(** C9, as the code has it.  [pseudoElement] tests no order: on every
    builder whose pseudo-element is unset, the builders of [combine]
    included, it returns a builder that holds [order] 5; when the name is
    not empty, [stringify] on that builder is the receiver's rendering
    followed by [::] and the name; when the name is empty, it is the
    receiver's rendering alone. *)
Theorem pseudoElement_tests_no_order (name : string) (b : CSSSelectorBuilder) :
  psuedoElementValue b = "" ->
  exists r : CSSSelectorBuilder,
    pseudoElement name b = Ok r
    /\ order r = cssSelectorOrder PseudoElement
    /\ (name <> "" -> stringify r = stringify b ++ "::" ++ name)
    /\ (name = "" -> stringify r = stringify b).
Proof.
  intros Hpe. rewrite pseudoElement_cases, Hpe. cbn [Js.truthy].
  eexists. split; [reflexivity|]. split; [reflexivity|].
  unfold stringify. cbn [prefix elementValue idValue classes attrs pseudoClasses
                          psuedoElementValue].
  rewrite Hpe. split; intros Hname.
  - apply truthy_true_iff in Hname. rewrite Hname. cbn [Js.truthy].
    rewrite !append_assoc. reflexivity.
  - subst name. reflexivity.
Qed.

Lemma pseudoElement_tests_no_order_witness :
  let c := combine (new_CSSSelectorBuilder 0 "" "a" "" [] [] [] "") "+"
             (new_CSSSelectorBuilder 0 "" "b" "" [] [] [] "") in
  (psuedoElementValue c = "" /\ order c = 1000 /\ stringify c = "a + b")
  /\ exists r : CSSSelectorBuilder,
       pseudoElement "x" c = Ok r
       /\ order r = cssSelectorOrder PseudoElement
       /\ ("x" <> "" -> stringify r = stringify c ++ "::" ++ "x")
       /\ ("x" = "" -> stringify r = stringify c).
Proof.
  split.
  - repeat split.
  - apply (pseudoElement_tests_no_order "x"). reflexivity.
Defined.

(** C9, as the claim states it, fails for the empty name:
    [pseudoElement('')] on [combine(element('a'), '+', element('b'))]
    returns, and [stringify] on the result renders [a + b], with no [::]
    behind the combined prefix. *)
Lemma pseudoElement_empty_name_renders_nothing :
  (c <- (s1 <- element "a" cssSelectorBuilder ;;
         s2 <- element "b" cssSelectorBuilder ;;
         Ok (combine s1 "+" s2)) ;;
   r <- pseudoElement "" c ;;
   Ok (stringify r, prefix c ++ "::" ++ "")) = Ok ("a + b", "a + b::").
Proof. reflexivity. Qed.

(** C10. The duplicate guards of [element], [id] and [pseudoElement] test
    the stored value for truthiness: each throws the duplicate error exactly
    when the value it guards is not the empty string.  So when the first
    value set is the empty string, a second call of the same setter on the
    builder that the first returned does not throw the duplicate error: it
    returns. *)
Theorem duplicate_guard_tests_truthiness :
  (forall (value : string) (b : CSSSelectorBuilder),
      element value b = Throw DuplicateFragmentError <-> elementValue b <> "")
  /\ (forall (value : string) (b : CSSSelectorBuilder),
        id value b = Throw DuplicateFragmentError <-> idValue b <> "")
  /\ (forall (value : string) (b : CSSSelectorBuilder),
        pseudoElement value b = Throw DuplicateFragmentError
        <-> psuedoElementValue b <> "")
  /\ (forall (c : Category) (value : string) (b0 b : CSSSelectorBuilder),
        In c [Element; Id; PseudoElement] ->
        add c "" b0 = Ok b ->
        add c value b <> Throw DuplicateFragmentError
        /\ exists b', add c value b = Ok b').
Proof.
  split; [|split; [|split]].
  - intros value b. rewrite element_cases, <- truthy_true_iff.
    destruct (Js.truthy (elementValue b)); [tauto|].
    destruct (order b >? 0); split; intros H; discriminate H.
  - intros value b. rewrite id_cases, <- truthy_true_iff.
    destruct (Js.truthy (idValue b)); [tauto|].
    destruct (order b >? 1); split; intros H; discriminate H.
  - intros value b. rewrite pseudoElement_cases, <- truthy_true_iff.
    destruct (Js.truthy (psuedoElementValue b)); [tauto|].
    split; intros H; discriminate H.
  - intros c value b0 b Hin Hadd.
    pose proof (add_sets _ _ _ _ Hadd) as Hset.
    pose proof (add_order _ _ _ _ Hadd) as Hord.
    assert (Hok : exists b', add c value b = Ok b').
    { destruct Hin as [<-|[<-|[<-|[]]]]; cbn [add]; cbn in Hord.
      - rewrite element_cases, Hset, Hord. cbn. eexists; reflexivity.
      - rewrite id_cases, Hset, Hord. cbn. eexists; reflexivity.
      - rewrite pseudoElement_cases, Hset. cbn. eexists; reflexivity. }
    split; [|exact Hok].
    destruct Hok as [b' Hb']. rewrite Hb'. discriminate.
Qed.

Lemma duplicate_guard_tests_truthiness_witness :
  (In Id [Element; Id; PseudoElement]
   /\ add Id "" cssSelectorBuilder
      = Ok (new_CSSSelectorBuilder 1 "" "" "" [] [] [] ""))
  /\ add Id "y" (new_CSSSelectorBuilder 1 "" "" "" [] [] [] "")
     <> Throw DuplicateFragmentError
  /\ exists b', add Id "y" (new_CSSSelectorBuilder 1 "" "" "" [] [] [] "") = Ok b'.
Proof.
  split.
  - split; [cbn; tauto | reflexivity].
  - apply (proj2 (proj2 (proj2 duplicate_guard_tests_truthiness))
             Id "y" cssSelectorBuilder).
    + cbn. tauto.
    + reflexivity.
Defined.

(** * Further properties of the builder *)

(** ** When a call returns *)

Lemma stringify_combine (selector1 selector2 : CSSSelectorBuilder)
    (combinator : string) :
  stringify (combine selector1 combinator selector2)
  = stringify selector1 ++ " " ++ combinator ++ " " ++ stringify selector2.
Proof.
  unfold stringify at 1. cbn. now rewrite append_nil_r.
Qed.

(** X1. A fragment-adding call returns exactly when the value its duplicate
    test reads is empty and, for the five methods that test it, [order] is
    not above the category of the call; it throws the order error exactly
    when the duplicate test passes and [order] is above the category. *)
Theorem add_returns_iff (c : Category) (value : string) (b : CSSSelectorBuilder) :
  ((exists b', add c value b = Ok b')
   <-> stored c b = "" /\ (c = PseudoElement \/ order b <= cssSelectorOrder c))
  /\ (add c value b = Throw OutOfOrderError
      <-> c <> PseudoElement /\ stored c b = "" /\ cssSelectorOrder c < order b).
Proof.
  add_cases c b; cbn [stored cssSelectorOrder];
    repeat match goal with
      | E : Js.truthy _ = true |- _ => apply truthy_true_iff in E
      | E : Js.truthy _ = false |- _ => apply truthy_false_iff in E
      end;
    (split; split;
     [ intros [b' Hb']; try discriminate Hb';
       (split; [assumption || reflexivity | (now left) || (right; lia)])
     | intros [Hs [Hc|Hle]]; try discriminate Hc; try contradiction; try lia;
       eexists; reflexivity
     | intros Ht; try discriminate Ht;
       repeat split; try discriminate; try assumption; try reflexivity; lia
     | intros [Hc [Hs Hlt]]; try contradiction; try lia; try reflexivity;
       now contradiction Hc ]).
Qed.

(** ** What the order field records *)

Lemma add_keeps_populated (c : Category) (value : string)
    (b b' : CSSSelectorBuilder) :
  populated_below_order b -> add c value b = Ok b' -> populated_below_order b'.
Proof.
  unfold populated_below_order. intros [He [Hi [Hc [Ha [Hp Hpe]]]]].
  add_cases c b; intros Hret; inversion Hret; cbn; clear Hret;
    repeat match goal with
      | E : Js.truthy _ = false |- _ => apply truthy_false_iff in E
      end;
    repeat split; intros Hne;
    repeat match goal with
      | I : ?P -> _, p : ?P |- _ => specialize (I p)
      end;
    cbn in *; try lia; try congruence.
Qed.

Lemma reachable_populated (b : CSSSelectorBuilder) :
  reachable b -> populated_below_order b.
Proof.
  induction 1 as [|c value b b' _ IH Hadd|].
  - unfold populated_below_order. cbn. repeat split; intros Hne; congruence.
  - now apply add_keeps_populated with c value b.
  - unfold populated_below_order. cbn. repeat split; intros Hne; congruence.
Qed.

(** X2. On every builder of the public API the categories that hold something
    lie at or below [order], and a pseudo-element is held at [order] 5
    only: a builder whose [order] is below a category holds nothing of it. *)
Theorem reachable_populated_below_order (b : CSSSelectorBuilder) :
  reachable b ->
  populated_below_order b
  /\ (order b < cssSelectorOrder Classes -> classes b = [])
  /\ (order b < cssSelectorOrder Attrs -> attrs b = [])
  /\ (order b < cssSelectorOrder PseudoClass -> pseudoClasses b = [])
  /\ (order b <> cssSelectorOrder PseudoElement -> psuedoElementValue b = "").
Proof.
  intros Hr. pose proof (reachable_populated b Hr) as Hp.
  split; [exact Hp|].
  destruct Hp as [_ [_ [Hc [Ha [Hp Hpe]]]]]. cbn in *.
  repeat split; intros Hlt.
  - destruct (classes b); [reflexivity|]. assert (2 <= order b) by (apply Hc; discriminate). lia.
  - destruct (attrs b); [reflexivity|]. assert (3 <= order b) by (apply Ha; discriminate). lia.
  - destruct (pseudoClasses b); [reflexivity|].
    assert (4 <= order b) by (apply Hp; discriminate). lia.
  - destruct (psuedoElementValue b); [reflexivity|].
    assert (order b = 5) by (apply Hpe; discriminate). lia.
Qed.

Lemma reachable_populated_below_order_witness :
  let b := new_CSSSelectorBuilder 2 "" "a" "" ["k"] [] [] "" in
  reachable b
  /\ populated_below_order b
  /\ (order b < cssSelectorOrder Classes -> classes b = [])
  /\ (order b < cssSelectorOrder Attrs -> attrs b = [])
  /\ (order b < cssSelectorOrder PseudoClass -> pseudoClasses b = [])
  /\ (order b <> cssSelectorOrder PseudoElement -> psuedoElementValue b = "").
Proof.
  cbv zeta.
  assert (Hr : reachable (new_CSSSelectorBuilder 2 "" "a" "" ["k"] [] [] "")).
  { apply reachable_add with Classes "k"
      (new_CSSSelectorBuilder 0 "" "a" "" [] [] [] ""); [|reflexivity].
    apply reachable_add with Element "a" cssSelectorBuilder; [|reflexivity].
    apply reachable_facade. }
  split; [exact Hr|].
  apply (reachable_populated_below_order _ Hr).
Defined.

(** ** The rendering grows by one piece per call *)

Lemma join_nosep_snoc (parts : list string) (last : string) :
  Js.join "" (parts ++ [last]) = Js.join "" parts ++ last.
Proof.
  rewrite !join_nosep, concat_all_app. cbn. now rewrite append_nil_r.
Qed.

Lemma join_comma_snoc (parts : list string) (last : string) :
  Js.join "," (parts ++ [last])
  = match parts with
    | [] => last
    | _ :: _ => Js.join "," parts ++ "," ++ last
    end.
Proof.
  induction parts as [|x [|y rest] IH].
  - reflexivity.
  - reflexivity.
  - change (Js.join "," ((x :: y :: rest) ++ [last]))
      with (x ++ "," ++ Js.join "," ((y :: rest) ++ [last])).
    rewrite IH, join_cons2, !append_assoc. reflexivity.
Qed.

(** Brings both sides of an equation between concatenations to the same
    right-nested form, without empty parts. *)
Ltac flatten_appends :=
  repeat first
    [ rewrite append_assoc | rewrite append_nil_r | progress cbn [append] ].

(** X3. On every builder of the public API, a fragment-adding call that returns
    leaves a builder whose rendering is the receiver's rendering followed by
    the piece of the call: later categories are still empty, so the new
    part comes last. *)
Theorem stringify_add (c : Category) (value : string) (b b' : CSSSelectorBuilder) :
  reachable b -> add c value b = Ok b' ->
  stringify b' = stringify b ++ piece c value b.
Proof.
  intros Hr Hadd.
  destruct (reachable_populated b Hr) as [He [Hi [Hc [Ha [Hp Hpe]]]]].
  cbn in He, Hi, Hc, Ha, Hp, Hpe.
  assert (Hno_id : order b <= 0 -> idValue b = "").
  { intros Hle. destruct (idValue b); [reflexivity|].
    assert (1 <= order b) by (apply Hi; discriminate). lia. }
  assert (Hno_c : order b <= 1 -> classes b = []).
  { intros Hle. destruct (classes b); [reflexivity|].
    assert (2 <= order b) by (apply Hc; discriminate). lia. }
  assert (Hno_a : order b <= 2 -> attrs b = []).
  { intros Hle. destruct (attrs b); [reflexivity|].
    assert (3 <= order b) by (apply Ha; discriminate). lia. }
  assert (Hno_p : order b <= 3 -> pseudoClasses b = []).
  { intros Hle. destruct (pseudoClasses b); [reflexivity|].
    assert (4 <= order b) by (apply Hp; discriminate). lia. }
  assert (Hno_pe : order b <= 4 -> psuedoElementValue b = "").
  { intros Hle. destruct (psuedoElementValue b); [reflexivity|].
    assert (order b = 5) by (apply Hpe; discriminate). lia. }
  clear He Hi Hc Ha Hp Hpe Hr.
  revert Hadd.
  add_cases c b; intros Hret; inversion Hret; clear Hret; subst b';
    repeat match goal with
      | E : Js.truthy _ = false |- _ => apply truthy_false_iff in E
      end;
    unfold stringify, piece, Js.toString;
    cbn [prefix elementValue idValue classes attrs pseudoClasses
           psuedoElementValue].
  - rewrite Heqb0, Hno_id, Hno_c, Hno_a, Hno_p, Hno_pe by lia.
    cbn. flatten_appends. reflexivity.
  - rewrite Heqb0, Hno_c, Hno_a, Hno_p, Hno_pe by lia.
    destruct value; cbn; flatten_appends; reflexivity.
  - rewrite Hno_a, Hno_p, Hno_pe by lia.
    rewrite map_app. cbn [map]. rewrite join_nosep_snoc.
    cbn. flatten_appends. reflexivity.
  - rewrite Hno_p, Hno_pe by lia.
    rewrite map_app. cbn [map]. rewrite join_comma_snoc.
    destruct (attrs b); cbn; flatten_appends; reflexivity.
  - rewrite Hno_pe by lia.
    rewrite map_app. cbn [map]. rewrite join_nosep_snoc.
    cbn. flatten_appends. reflexivity.
  - rewrite Heqb0.
    destruct value; cbn; flatten_appends; reflexivity.
Qed.

Lemma stringify_add_witness :
  let b := new_CSSSelectorBuilder 3 "" "a" "" [] ["x"] [] "" in
  let b' := new_CSSSelectorBuilder 3 "" "a" "" [] ["x"; "y"] [] "" in
  (reachable b /\ add Attrs "y" b = Ok b')
  /\ stringify b' = stringify b ++ piece Attrs "y" b.
Proof.
  cbv zeta.
  assert (Hr : reachable (new_CSSSelectorBuilder 3 "" "a" "" [] ["x"] [] "")).
  { apply reachable_add with Attrs "x"
      (new_CSSSelectorBuilder 0 "" "a" "" [] [] [] ""); [|reflexivity].
    apply reachable_add with Element "a" cssSelectorBuilder; [|reflexivity].
    apply reachable_facade. }
  split; [split; [exact Hr | reflexivity]|].
  apply (stringify_add Attrs "y" _ _ Hr). reflexivity.
Defined.

(** ** The chains the facade accepts *)

(** Uses the implications at hand whose premise is known or follows by
    arithmetic on [order]. *)
Ltac use_order_facts :=
  repeat match goal with
    | I : ?P -> _, p : ?P |- _ => specialize (I p)
    | I : (order ?x = ?k) -> _ |- _ =>
        let p := fresh in assert (p : order x = k) by lia; specialize (I p)
    end.

Lemma add_follows (c : Category) (value : string) (b : CSSSelectorBuilder) :
  order_tells_set b -> value <> "" ->
  ((exists b', add c value b = Ok b') <-> follows (order b) c = true).
Proof.
  unfold order_tells_set, follows.
  intros [Hmax [He0 [He [Hi1 [Hi [Hpe5 Hpe]]]]]] Hvalue.
  add_cases c b; cbn [single cssSelectorOrder] in *;
    repeat match goal with
      | E : Js.truthy _ = true |- _ => apply truthy_true_iff in E
      | E : Js.truthy _ = false |- _ => apply truthy_false_iff in E
      end;
    match goal with
    | |- context [(?x <? ?y)%Z] => destruct (Z.ltb_spec x y)
    | |- context [(?x <=? ?y)%Z] => destruct (Z.leb_spec x y)
    end;
    (split; [intros [b' Hb'] | intros Hf]);
    try discriminate; try reflexivity; try (eexists; reflexivity);
    exfalso; use_order_facts; try lia; congruence.
Qed.

Lemma add_keeps_tells (c : Category) (value : string)
    (b b' : CSSSelectorBuilder) :
  order_tells_set b -> value <> "" -> add c value b = Ok b' ->
  order_tells_set b'.
Proof.
  unfold order_tells_set.
  intros [Hmax [He0 [He [Hi1 [Hi [Hpe5 Hpe]]]]]] Hvalue.
  add_cases c b; intros Hret; inversion Hret; clear Hret;
    cbn [order elementValue idValue psuedoElementValue cssSelectorOrder] in *;
    repeat match goal with
      | E : Js.truthy _ = false |- _ => apply truthy_false_iff in E
      end;
    (split; [lia|]);
    repeat split; intros Hp; try assumption; try lia;
    use_order_facts; try lia; congruence.
Qed.

Lemma chain_follows (calls : list (Category * string)) :
  forall b : CSSSelectorBuilder,
    order_tells_set b ->
    Forall (fun cv => snd cv <> "") calls ->
    ((exists r, chain (calls_of calls) b = Ok r)
     <-> well_ordered (order b) (map fst calls) = true).
Proof.
  induction calls as [|[c value] calls IH]; intros b Hb Hne.
  - cbn. split; [reflexivity | exists b; reflexivity].
  - inversion Hne as [|? ? Hvalue Hrest]; subst. cbn [snd] in Hvalue.
    unfold calls_of. cbn [map fst snd well_ordered].
    rewrite chain_cons. fold (calls_of calls).
    pose proof (add_follows c value b Hb Hvalue) as Hf.
    destruct (add c value b) as [b'|e] eqn:Hadd.
    + assert (Htrue : follows (order b) c = true)
        by (apply Hf; exists b'; reflexivity).
      rewrite Htrue. cbn [bind andb].
      rewrite <- (add_order c value b b' Hadd).
      apply IH; [|exact Hrest].
      now apply add_keeps_tells with c value b.
    + cbn [bind]. split.
      * intros [r Hr]. discriminate Hr.
      * intros Hw. apply andb_prop in Hw. destruct Hw as [Hw _].
        apply Hf in Hw. destruct Hw as [b' Hb']. discriminate Hb'.
Qed.

(** X4. From the facade, a chain of fragment-adding calls whose values are not
    empty returns exactly when its categories are arranged in order:
    never a category below the one before, and [element], [id] and
    [pseudoElement] never repeated. *)
Theorem chain_returns_iff_well_ordered (calls : list (Category * string)) :
  Forall (fun cv => snd cv <> "") calls ->
  ((exists r, chain (calls_of calls) cssSelectorBuilder = Ok r)
   <-> well_ordered (-1) (map fst calls) = true).
Proof.
  intros Hne. apply (chain_follows calls cssSelectorBuilder); [|exact Hne].
  unfold order_tells_set. cbn.
  repeat split; intros H; try lia; try discriminate H; congruence.
Qed.

Lemma chain_returns_iff_well_ordered_witness :
  let calls := [(Element, "div"); (Id, "main"); (Classes, "container");
                (Classes, "draggable"); (PseudoElement, "before")] in
  Forall (fun cv => snd cv <> "") calls
  /\ well_ordered (-1) (map fst calls) = true
  /\ exists r, chain (calls_of calls) cssSelectorBuilder = Ok r.
Proof.
  cbv zeta.
  assert (Hne : Forall (fun cv : Category * string => snd cv <> "")
                  [(Element, "div"); (Id, "main"); (Classes, "container");
                   (Classes, "draggable"); (PseudoElement, "before")]).
  { repeat constructor; discriminate. }
  split; [exact Hne|]. split; [reflexivity|].
  apply (chain_returns_iff_well_ordered _ Hne). reflexivity.
Defined.

(** ** Rendering and the specified rendering *)

(** X5. [stringify] is the specified rendering exactly on the builders that
    hold at most one attribute. *)
Theorem stringify_meets_spec_iff (b : CSSSelectorBuilder) :
  stringify b = spec_rendering b <-> (List.length (attrs b) <= 1)%nat.
Proof.
  split.
  - intros Heq. destruct (attrs b) as [|a1 [|a2 rest]] eqn:Hattrs; cbn; try lia.
    exfalso. now apply (stringify_not_spec b a1 a2 rest).
  - apply stringify_spec_short.
Qed.

(** ** Combined selectors *)

(** X6. Nested combinations render the same, and are the same builder, however
    they are grouped. *)
Theorem combine_assoc (s1 s2 s3 : CSSSelectorBuilder) (k1 k2 : string) :
  combine (combine s1 k1 s2) k2 s3 = combine s1 k1 (combine s2 k2 s3)
  /\ stringify (combine (combine s1 k1 s2) k2 s3)
     = stringify s1 ++ " " ++ k1 ++ " " ++ stringify s2
       ++ " " ++ k2 ++ " " ++ stringify s3.
Proof.
  split.
  - unfold combine at 1 3. rewrite !stringify_combine, !append_assoc. reflexivity.
  - rewrite !stringify_combine, !append_assoc. reflexivity.
Qed.

Lemma combined_lineage_fields (s1 s2 b : CSSSelectorBuilder) (k : string) :
  lineage (combine s1 k s2) b ->
  prefix b = stringify s1 ++ " " ++ k ++ " " ++ stringify s2
  /\ elementValue b = "" /\ idValue b = ""
  /\ classes b = [] /\ attrs b = [] /\ pseudoClasses b = []
  /\ cssSelectorOrder PseudoElement <= order b.
Proof.
  induction 1 as [|c value b' b'' _ IH Hadd].
  - cbn. repeat split. lia.
  - destruct IH as [Hp [He [Hi [Hc [Ha [Hpc Ho]]]]]]. cbn in Ho. revert Hadd.
    add_cases c b'; intros Hret; inversion Hret; cbn; try lia.
    repeat split; try assumption. lia.
Qed.

(** X7. Every builder that descends from a combined one stays closed to
    [element], [id], [class], [attr] and [pseudoClass], which throw the order
    error on it, and renders the combined selector, followed by [::] and its
    pseudo-element when it holds one. *)
Theorem combined_lineage_closed (s1 s2 b : CSSSelectorBuilder) (k : string) :
  lineage (combine s1 k s2) b ->
  (forall (c : Category) (value : string),
      c <> PseudoElement -> add c value b = Throw OutOfOrderError)
  /\ stringify b
     = stringify (combine s1 k s2)
       ++ (if Js.truthy (psuedoElementValue b)
           then "::" ++ psuedoElementValue b else "").
Proof.
  intros Hl.
  destruct (combined_lineage_fields _ _ _ _ Hl) as [Hp [He [Hi [Hc [Ha [Hpc Ho]]]]]].
  cbn in Ho. split.
  - intros c value Hne.
    destruct c; cbn [add];
      rewrite ?element_cases, ?id_cases, ?class_cases, ?attr_cases,
        ?pseudoClass_cases, ?He, ?Hi; cbn [Js.truthy];
      try match goal with
        | |- context [?x >? ?y] => destruct (Z.gtb_spec x y)
        end;
      try reflexivity; try lia.
    now contradiction Hne.
  - rewrite stringify_combine, stringify_shape, Hp, He, Hi, Hc, Ha, Hpc.
    cbn [Js.truthy map concat_all fold_right Js.join].
    flatten_appends. reflexivity.
Qed.

Lemma combined_lineage_closed_witness :
  let c := combine (new_CSSSelectorBuilder 0 "" "a" "" [] [] [] "") ">"
             (new_CSSSelectorBuilder 0 "" "b" "" [] [] [] "") in
  let b := new_CSSSelectorBuilder 5 "a > b" "" "" [] [] [] "x" in
  lineage c b
  /\ (forall (c' : Category) (value : string),
         c' <> PseudoElement -> add c' value b = Throw OutOfOrderError)
  /\ stringify b
     = stringify c
       ++ (if Js.truthy (psuedoElementValue b)
           then "::" ++ psuedoElementValue b else "").
Proof.
  cbv zeta.
  assert (Hl : lineage
                 (combine (new_CSSSelectorBuilder 0 "" "a" "" [] [] [] "") ">"
                    (new_CSSSelectorBuilder 0 "" "b" "" [] [] [] ""))
                 (new_CSSSelectorBuilder 5 "a > b" "" "" [] [] [] "x")).
  { eapply lineage_call with (c := PseudoElement) (value := "x");
      [apply lineage_here | reflexivity]. }
  split; [exact Hl|].
  apply (combined_lineage_closed _ _ _ _ Hl).
Defined.

Lemma order_lowered_only_after_combine_witness :
  let c := combine (new_CSSSelectorBuilder 0 "" "a" "" [] [] [] "") "+"
             (new_CSSSelectorBuilder 0 "" "b" "" [] [] [] "") in
  let r := new_CSSSelectorBuilder 5 "a + b" "" "" [] [] [] "x" in
  (reachable c /\ add PseudoElement "x" c = Ok r /\ order r < order c)
  /\ PseudoElement = PseudoElement /\ order c = 1000.
Proof.
  cbv zeta.
  assert (Hr : reachable
                 (combine (new_CSSSelectorBuilder 0 "" "a" "" [] [] [] "") "+"
                    (new_CSSSelectorBuilder 0 "" "b" "" [] [] [] ""))).
  { apply reachable_combine.
    - apply reachable_add with Element "a" cssSelectorBuilder;
        [apply reachable_facade | reflexivity].
    - apply reachable_add with Element "b" cssSelectorBuilder;
        [apply reachable_facade | reflexivity].
    - cbn. tauto. }
  split.
  - split; [exact Hr|]. split; [reflexivity | cbn; lia].
  - apply (order_lowered_only_after_combine PseudoElement "x" _
             (new_CSSSelectorBuilder 5 "a + b" "" "" [] [] [] "x") Hr).
    + reflexivity.
    + cbn. lia.
Defined.

(** ** Lineages only add *)

(** X9. Along a lineage the combined prefix stays, and the classes, attributes
    and pseudo-classes of the ancestor stay in front, in place. *)
Theorem lineage_appends (b b' : CSSSelectorBuilder) :
  lineage b b' ->
  prefix b' = prefix b
  /\ (exists more, classes b' = (classes b ++ more)%list)
  /\ (exists more, attrs b' = (attrs b ++ more)%list)
  /\ (exists more, pseudoClasses b' = (pseudoClasses b ++ more)%list).
Proof.
  induction 1 as [|c value b' b'' _ [Hp [[cs Hc] [[ats Ha] [ps Hpc]]]] Hadd].
  - split; [reflexivity|].
    repeat split; exists []; now rewrite app_nil_r.
  - revert Hadd.
    add_cases c b'; intros Hret; inversion Hret; cbn;
      rewrite ?Hc, ?Ha, ?Hpc, <- ?app_assoc;
      (split; [exact Hp|]); repeat split; eexists; reflexivity.
Qed.

Lemma lineage_appends_witness :
  let b := new_CSSSelectorBuilder 2 "" "a" "" ["k"] [] [] "" in
  let b' := new_CSSSelectorBuilder 3 "" "a" "" ["k"; "l"] ["x"] [] "" in
  lineage b b'
  /\ prefix b' = prefix b
  /\ (exists more, classes b' = (classes b ++ more)%list)
  /\ (exists more, attrs b' = (attrs b ++ more)%list)
  /\ (exists more, pseudoClasses b' = (pseudoClasses b ++ more)%list).
Proof.
  cbv zeta.
  assert (Hl : lineage (new_CSSSelectorBuilder 2 "" "a" "" ["k"] [] [] "")
                 (new_CSSSelectorBuilder 3 "" "a" "" ["k"; "l"] ["x"] [] "")).
  { apply lineage_call with Attrs "x"
      (new_CSSSelectorBuilder 2 "" "a" "" ["k"; "l"] [] [] ""); [|reflexivity].
    apply lineage_call with Classes "l"
      (new_CSSSelectorBuilder 2 "" "a" "" ["k"] [] [] ""); [|reflexivity].
    apply lineage_here. }
  split; [exact Hl|].
  apply (lineage_appends _ _ Hl).
Defined.

(** ** Order along the lineages of the facade *)

Lemma facade_lineage_order (b : CSSSelectorBuilder) :
  lineage cssSelectorBuilder b ->
  order b <= cssSelectorOrder PseudoElement /\ prefix b = "".
Proof.
  induction 1 as [|c value b' b'' _ [IHo IHp] Hadd].
  - cbn. split; [lia | reflexivity].
  - rewrite (add_order _ _ _ _ Hadd). split; [destruct c; cbn; lia|].
    revert Hadd. add_cases c b'; intros Hret; inversion Hret; cbn; exact IHp.
Qed.

(** X10. On the lineages of the facade, where no [combine] takes part, [order]
    never decreases from a builder to any of its descendants, and no
    builder has a prefix. *)
Theorem facade_lineage_monotone (b b' : CSSSelectorBuilder) :
  lineage cssSelectorBuilder b -> lineage b b' ->
  order b <= order b' /\ prefix b' = "".
Proof.
  intros Hb Hl. induction Hl as [|c value b' b'' Hl' [IHo IHp] Hadd].
  - split; [lia | now apply facade_lineage_order].
  - pose proof (lineage_trans _ _ _ Hb Hl') as Hb'.
    destruct (facade_lineage_order b' Hb') as [Hmax _].
    split.
    + destruct (Category_eq_dec c PseudoElement) as [->|Hc].
      * rewrite (add_order _ _ _ _ Hadd). cbn in *. lia.
      * pose proof (guarded_add_monotone c value b' b'' Hc Hadd). lia.
    + apply facade_lineage_order. now apply lineage_call with c value b'.
Qed.

Lemma facade_lineage_monotone_witness :
  let b := new_CSSSelectorBuilder 0 "" "a" "" [] [] [] "" in
  let b' := new_CSSSelectorBuilder 5 "" "a" "" ["k"] [] [] "x" in
  (lineage cssSelectorBuilder b /\ lineage b b')
  /\ order b <= order b' /\ prefix b' = "".
Proof.
  cbv zeta.
  assert (Hb : lineage cssSelectorBuilder
                 (new_CSSSelectorBuilder 0 "" "a" "" [] [] [] "")).
  { apply lineage_call with Element "a" cssSelectorBuilder;
      [apply lineage_here | reflexivity]. }
  assert (Hl : lineage (new_CSSSelectorBuilder 0 "" "a" "" [] [] [] "")
                 (new_CSSSelectorBuilder 5 "" "a" "" ["k"] [] [] "x")).
  { apply lineage_call with PseudoElement "x"
      (new_CSSSelectorBuilder 2 "" "a" "" ["k"] [] [] ""); [|reflexivity].
    apply lineage_call with Classes "k"
      (new_CSSSelectorBuilder 0 "" "a" "" [] [] [] ""); [|reflexivity].
    apply lineage_here. }
  split; [split; [exact Hb | exact Hl]|].
  apply (facade_lineage_monotone _ _ Hb Hl).
Defined.

(** ** The full form of a selector *)

Lemma chain_app (calls1 calls2 : list (CSSSelectorBuilder -> result CSSSelectorBuilder))
    (b : CSSSelectorBuilder) :
  chain (calls1 ++ calls2) b = chain calls1 b >>= chain calls2.
Proof.
  revert b. induction calls1 as [|call calls1 IH]; intros b.
  - reflexivity.
  - cbn [app]. rewrite !chain_cons.
    destruct (call b) as [b'|e]; cbn [bind]; [apply IH | reflexivity].
Qed.

(** A run of [attr] calls, as [class_chain] for [class]. *)
Lemma attr_chain (values : list string) :
  forall b : CSSSelectorBuilder,
    order b <= cssSelectorOrder Attrs ->
    exists b',
      chain (map attr values) b = Ok b'
      /\ order b' <= cssSelectorOrder Attrs
      /\ attrs b' = (attrs b ++ values)%list
      /\ prefix b' = prefix b /\ elementValue b' = elementValue b
      /\ idValue b' = idValue b /\ classes b' = classes b
      /\ pseudoClasses b' = pseudoClasses b
      /\ psuedoElementValue b' = psuedoElementValue b.
Proof.
  induction values as [|value values IH]; intros b Hb; cbn [map].
  - exists b. rewrite app_nil_r. repeat split; try reflexivity. exact Hb.
  - rewrite chain_cons, attr_cases.
    destruct (Z.gtb_spec (order b) 3) as [Hgt|_]; [cbn in Hb; lia|].
    cbn [bind].
    destruct (IH (new_CSSSelectorBuilder 3 (prefix b) (elementValue b) (idValue b)
                    (classes b) (attrs b ++ [value]) (pseudoClasses b)
                    (psuedoElementValue b))) as [b' [Hc [Ho [Ha Hrest]]]].
    + cbn. lia.
    + exists b'. cbn in Ha, Hrest. rewrite <- app_assoc in Ha.
      split; [exact Hc|]. split; [exact Ho|]. split; [exact Ha | exact Hrest].
Qed.

(** A run of [pseudoClass] calls. *)
Lemma pseudoClass_chain (values : list string) :
  forall b : CSSSelectorBuilder,
    order b <= cssSelectorOrder PseudoClass ->
    exists b',
      chain (map pseudoClass values) b = Ok b'
      /\ pseudoClasses b' = (pseudoClasses b ++ values)%list
      /\ prefix b' = prefix b /\ elementValue b' = elementValue b
      /\ idValue b' = idValue b /\ classes b' = classes b
      /\ attrs b' = attrs b
      /\ psuedoElementValue b' = psuedoElementValue b.
Proof.
  induction values as [|value values IH]; intros b Hb; cbn [map].
  - exists b. rewrite app_nil_r. repeat split; reflexivity.
  - rewrite chain_cons, pseudoClass_cases.
    destruct (Z.gtb_spec (order b) 4) as [Hgt|_]; [cbn in Hb; lia|].
    cbn [bind].
    destruct (IH (new_CSSSelectorBuilder 4 (prefix b) (elementValue b) (idValue b)
                    (classes b) (attrs b) (pseudoClasses b ++ [value])
                    (psuedoElementValue b))) as [b' [Hc [Hp Hrest]]].
    + cbn. lia.
    + exists b'. cbn in Hp, Hrest. rewrite <- app_assoc in Hp.
      split; [exact Hc|]. split; [exact Hp | exact Hrest].
Qed.

(** The order of a builder after a run of [class] calls admits an
    attribute. *)
Lemma class_chain_order (names : list string) :
  forall b b' : CSSSelectorBuilder,
    order b <= cssSelectorOrder Classes ->
    chain (map class names) b = Ok b' -> order b' <= cssSelectorOrder Classes.
Proof.
  induction names as [|name names IH]; intros b b' Hb; cbn [map].
  - intros Hret. inversion Hret. now subst.
  - rewrite chain_cons, class_cases.
    destruct (Z.gtb_spec (order b) 2) as [Hgt|_]; [cbn in Hb; lia|].
    cbn [bind]. apply IH. cbn. lia.
Qed.

(** X11. Whatever the parts are, empty ones included, the chain in the order of
    the documentation, [element], [id], the classes, the attributes, the
    pseudo-classes, [pseudoElement], returns the builder that holds exactly
    these parts, each list in the order of its calls. *)
Theorem full_selector_chain (e i pe : string) (cs ats ps : list string) :
  chain (element e :: id i :: map class cs ++ map attr ats
           ++ map pseudoClass ps ++ [pseudoElement pe])%list
    cssSelectorBuilder
  = Ok (new_CSSSelectorBuilder 5 "" e i cs ats ps pe).
Proof.
  rewrite chain_cons.
  change (element e cssSelectorBuilder)
    with (Ok (new_CSSSelectorBuilder 0 "" e "" [] [] [] "")).
  cbn [bind]. rewrite chain_cons.
  change (id i (new_CSSSelectorBuilder 0 "" e "" [] [] [] ""))
    with (Ok (new_CSSSelectorBuilder 1 "" e i [] [] [] "")).
  cbn [bind]. rewrite chain_app.
  destruct (class_chain cs (new_CSSSelectorBuilder 1 "" e i [] [] [] ""))
    as [b1 [H1 F1]]; [cbn; lia|].
  assert (O1 : order b1 <= cssSelectorOrder Classes).
  { apply (class_chain_order cs (new_CSSSelectorBuilder 1 "" e i [] [] [] "") b1);
      [cbn; lia | exact H1]. }
  rewrite H1. cbn [bind]. rewrite chain_app.
  destruct (attr_chain ats b1) as [b2 [H2 [O2 F2]]];
    [cbn in O1 |- *; lia|].
  rewrite H2. cbn [bind]. rewrite chain_app.
  destruct (pseudoClass_chain ps b2) as [b3 [H3 F3]];
    [cbn in O2 |- *; lia|].
  rewrite H3. cbn [bind].
  rewrite chain_cons, pseudoElement_cases.
  destruct F1 as [C1 [P1 [E1 [I1 [A1 [S1 X1]]]]]].
  destruct F2 as [A2 [P2 [E2 [I2 [C2 [S2 X2]]]]]].
  destruct F3 as [S3 [P3 [E3 [I3 [C3 [A3 X3]]]]]].
  cbn in C1, P1, E1, I1, A1, S1, X1.
  rewrite X3, X2, X1. cbn [Js.truthy bind chain fold_left].
  rewrite P3, P2, P1, E3, E2, E1, I3, I2, I1, C3, C2, C1, A3, A2, A1, S3, S2, S1.
  reflexivity.
Qed.
